(** * Infinite parallax carousel (script.js): motion state, input handlers, frame loop

    The script keeps a handful of numeric globals (position, velocity,
    smoothPos, the drag session, the track geometry), mutates them from DOM
    event listeners and from one ticker callback per animation frame, and
    emits per-card style properties.

    Embedding.  The globals become one record [State]; every listener is a
    function [State -> State] taking what it reads from the event and from the
    host (clientX, deltaY, performance.now(), the window layout) as arguments;
    the ticker callback returns the new state together with the properties it
    hands to the renderer.  Host numbers are embedded as exact rationals
    ([Q]): every finite double is a rational, and the arithmetic is the
    un-rounded one.  Equalities between computed numbers are therefore stated
    with [==] ([Qeq]).  Remainder and division are total here: by zero they
    return the dividend and zero, where the host yields NaN or an infinity;
    a theorem that needs a non-zero divisor says so.  The host rounds every
    operation to binary64; the theorems state what does not depend on that
    rounding (what an expression is built from, orderings, bounds), and where
    rounding decides a property the expression is evaluated on binary64
    floats as well (module [Double]). *)

From Stdlib Require Import QArith Qround Qabs Qminmax Lqa.
From Stdlib Require Import ZArith Lia List Bool.
From Stdlib Require Import PrimFloat.
Import ListNotations.

Open Scope Q_scope.

(** ** Host number operations *)

Module Num.

(** [x < y] and [x > y] as the tests of a conditional. *)
Definition ltb (x y : Q) : bool := negb (Qle_bool y x).
Definition gtb (x y : Q) : bool := ltb y x.

(** Rounding toward zero. *)
Definition trunc (q : Q) : Z :=
  if Qle_bool 0 q then Qfloor q else Qceiling q.

(** The [%] operator: remainder of the division truncated toward zero, so
    the result carries the sign of the dividend. *)
Definition rem (x m : Q) : Q := x - m * inject_Z (trunc (x / m)).

Definition of_nat (n : nat) : Q := inject_Z (Z.of_nat n).

End Num.

(** ** The two GSAP utilities the frame loop calls *)

Module gsap.

(** Modelled from the spec: [gsap.utils.clamp(min, max, value)] belongs to
    the GSAP library, which is not part of the script; the value is limited
    to the closed range from [min] to [max]. *)
Definition clamp (min max value : Q) : Q :=
  if Num.ltb value min then min
  else if Num.gtb value max then max
  else value.

(** Modelled from the spec: [gsap.utils.mapRange(inMin, inMax, outMin,
    outMax, value)] belongs to the GSAP library; it maps [value] linearly
    from the input range onto the output range and does not limit the
    result. *)
Definition mapRange (inMin inMax outMin outMax value : Q) : Q :=
  outMin + (value - inMin) / (inMax - inMin) * (outMax - outMin).

End gsap.

(** ** Data *)

(** A card element of the track, named by the index of the original card it
    was cloned from. *)
Definition Card := nat.

(** What the script reads from the page layout: [window.innerWidth], and for
    [cards[0]] its [offsetWidth] and the parsed [marginRight] of its computed
    style. *)
Record Window := mkWindow {
  innerWidth : Q;
  offsetWidth : Q;
  marginRight : Q
}.

(** The script's mutable globals. *)
Record State := mkState {
  cards : list Card;
  itemW : Q;
  totalWidth : Q;
  visibleCenterX : Q;
  position : Q;
  velocity : Q;
  smoothPos : Q;
  touchStartX : option Q;
  isDragging : bool;
  lastX : Q;
  dragStartTime : Q;
  dragStartX : Q;
  draggingClass : bool   (* viewport.classList contains 'dragging' *)
}.

Definition friction : Q := 0.91.
Definition wheelMultiplier : Q := 0.1.
Definition lerpSpeed : Q := 0.14.

(** ** Track builder *)

Definition cloneCount : nat := 3.

(** [ensureClones]: the track is emptied and refilled with [cloneCount]
    copies of the original cards, one copy after the other. *)
Definition ensureClones (originals : list Card) : list Card :=
  flat_map (fun _ => originals) (seq 0 cloneCount).

(** [getItemWidth]: reading [cards[0]] of an empty array throws, which is the
    [None] here. *)
Definition getItemWidth (cs : list Card) (w : Window) : option Q :=
  match cs with
  | [] => None
  | _ :: _ => Some (offsetWidth w + marginRight w)
  end.

(** The top-level statements of the script, up to the registration of the
    listeners.  With no card in the track [getItemWidth] throws and nothing
    is registered.  The script does not touch the viewport's class list
    before the first mouse press: [draggingClass] starts as [false], that
    is, the markup is taken not to carry the class, and nothing proved below
    rests on that start value. *)
Definition init (originals : list Card) (w : Window) : option State :=
  let cs := ensureClones originals in
  match getItemWidth cs w with
  | None => None
  | Some iw =>
      Some {| cards := cs;
              itemW := iw;
              totalWidth := iw * Num.of_nat (length cs);
              visibleCenterX := innerWidth w / 2;
              position := 0;
              velocity := 0;
              smoothPos := 0;
              touchStartX := None;
              isDragging := false;
              lastX := 0;
              dragStartTime := 0;
              dragStartX := 0;
              draggingClass := false |}
  end.

(** ** Field updates *)

Definition set_position (p : Q) (s : State) : State :=
  mkState (cards s) (itemW s) (totalWidth s) (visibleCenterX s)
          p (velocity s) (smoothPos s) (touchStartX s)
          (isDragging s) (lastX s) (dragStartTime s) (dragStartX s)
          (draggingClass s).

Definition set_velocity (v : Q) (s : State) : State :=
  mkState (cards s) (itemW s) (totalWidth s) (visibleCenterX s)
          (position s) v (smoothPos s) (touchStartX s)
          (isDragging s) (lastX s) (dragStartTime s) (dragStartX s)
          (draggingClass s).

Definition set_smoothPos (p : Q) (s : State) : State :=
  mkState (cards s) (itemW s) (totalWidth s) (visibleCenterX s)
          (position s) (velocity s) p (touchStartX s)
          (isDragging s) (lastX s) (dragStartTime s) (dragStartX s)
          (draggingClass s).

Definition set_touchStartX (t : option Q) (s : State) : State :=
  mkState (cards s) (itemW s) (totalWidth s) (visibleCenterX s)
          (position s) (velocity s) (smoothPos s) t
          (isDragging s) (lastX s) (dragStartTime s) (dragStartX s)
          (draggingClass s).

Definition set_lastX (x : Q) (s : State) : State :=
  mkState (cards s) (itemW s) (totalWidth s) (visibleCenterX s)
          (position s) (velocity s) (smoothPos s) (touchStartX s)
          (isDragging s) x (dragStartTime s) (dragStartX s)
          (draggingClass s).

Definition set_drag (d : bool) (s : State) : State :=
  mkState (cards s) (itemW s) (totalWidth s) (visibleCenterX s)
          (position s) (velocity s) (smoothPos s) (touchStartX s)
          d (lastX s) (dragStartTime s) (dragStartX s) d.

Definition set_dragStart (x now : Q) (s : State) : State :=
  mkState (cards s) (itemW s) (totalWidth s) (visibleCenterX s)
          (position s) (velocity s) (smoothPos s) (touchStartX s)
          (isDragging s) (lastX s) now x (draggingClass s).

Definition set_geometry (iw tw c : Q) (s : State) : State :=
  mkState (cards s) iw tw c
          (position s) (velocity s) (smoothPos s) (touchStartX s)
          (isDragging s) (lastX s) (dragStartTime s) (dragStartX s)
          (draggingClass s).

(** ** Input handling *)

(** The [wheel] listener. *)
Definition onWheel (deltaY : Q) (s : State) : State :=
  set_velocity (velocity s + deltaY * wheelMultiplier) s.

(** The [touchstart], [touchmove] and [touchend] listeners; [clientX] is
    [e.touches[0].clientX]. *)
Definition onTouchStart (clientX : Q) (s : State) : State :=
  set_touchStartX (Some clientX) s.

Definition onTouchMove (clientX : Q) (s : State) : State :=
  match touchStartX s with
  | None => s
  | Some x0 =>
      let dx := clientX - x0 in
      set_touchStartX (Some clientX) (set_position (position s - dx) s)
  end.

Definition onTouchEnd (s : State) : State :=
  set_touchStartX None s.

(** The [mousedown] listener; [now] is the value of [performance.now()]. *)
Definition onMouseDown (clientX now : Q) (s : State) : State :=
  set_velocity 0 (set_dragStart clientX now (set_lastX clientX (set_drag true s))).

Definition maxVelocity : Q := 30.

(** The [mouseup] listener. *)
Definition onMouseUp (clientX now : Q) (s : State) : State :=
  if isDragging s then
    let s1 := set_drag false s in
    let dx := clientX - dragStartX s in
    let dt := (now - dragStartTime s) / 1000 in
    if Num.gtb dt 0 then
      let v := - (dx / dt) * 0.03 in
      set_velocity (Qmax (Qmin v maxVelocity) (- maxVelocity)) s1
    else s1
  else s.

(** The [mousemove] listener. *)
Definition onMouseMove (clientX : Q) (s : State) : State :=
  if negb (isDragging s) then s
  else
    let dx := clientX - lastX s in
    set_lastX clientX (set_position (position s - dx * 0.8) s).

(** The [resize] listener.  [getItemWidth] is called twice; a throw in the
    first call leaves every global as it was. *)
Definition onResize (w : Window) (s : State) : State :=
  match getItemWidth (cards s) w with
  | None => s
  | Some _ =>
      match getItemWidth (cards s) w with
      | None => s
      | Some iw =>
          set_geometry iw (iw * Num.of_nat (length (cards s)))
                       (innerWidth w / 2) s
      end
  end.

(** ** Helper functions *)

(** [wrap] reads the global [totalWidth]. *)
Definition wrap (s : State) (x : Q) : Q :=
  Num.rem (Num.rem x (totalWidth s) + totalWidth s) (totalWidth s).

Definition easeScale (t : Q) : Q :=
  if Num.ltb t 0.5 then 2 * t * t else -1 + (4 - 2 * t) * t.

(** The same function as the host evaluates it: Rocq's primitive floats are
    binary64 with rounding to nearest, ties to even, so every operation below
    rounds as the script's does. *)
Module Double.

Definition easeScale (t : float) : float :=
  if (t <? 0.5)%float then (2 * t * t)%float
  else (-1 + (4 - 2 * t) * t)%float.

End Double.

(** ** Animation loop *)

(** The properties handed to [gsap.set] for a card; [card_blur] and
    [card_brightness] are the two numbers of its [filter] string. *)
Record CardProps := mkCardProps {
  card_x : Q;
  card_y : Q;
  card_scaleX : Q;
  card_scaleY : Q;
  card_rotationY : Q;
  card_rotationX : Q;
  card_z : Q;
  card_blur : Q;
  card_brightness : Q
}.

(** The target handed to [gsap.to] for the image inside a card (duration
    0.45, ease power2.out). *)
Record ImgProps := mkImgProps {
  img_x : Q;
  img_y : Q
}.

Definition finalX (s : State) (i : nat) : Q :=
  let baseX := Num.of_nat i * itemW s - smoothPos s in
  let baseX := wrap s baseX in
  baseX - totalWidth s / 2 + visibleCenterX s.

Definition cardCenterX (s : State) (i : nat) : Q :=
  finalX s i + itemW s / 2.

(** The eased, normalized distance [t] of card [i] from the viewport
    center. *)
Definition easedDistance (s : State) (w : Window) (i : nat) : Q :=
  let dist := Qabs (cardCenterX s i - visibleCenterX s) in
  let t := gsap.clamp 0 1 (dist / Qmax (innerWidth w) 900) in
  easeScale t.

Definition parallaxRange : Q := 40.

(** The body of the [for] loop of the ticker callback for card [i]. *)
Definition renderCard (s : State) (w : Window) (i : nat)
  : CardProps * ImgProps :=
  let t := easedDistance s w i in
  let left := Num.ltb (cardCenterX s i) (visibleCenterX s) in
  let scale := gsap.mapRange 0 1 1 0.65 t in
  let rotateY := gsap.mapRange 0 1 0 20 t * (if left then 1 else -1) in
  let rotateX := gsap.mapRange 0 1 0 6 t * (if left then -1 else 1) in
  let z := gsap.mapRange 0 1 120 (-60) t in
  let yOffset := gsap.mapRange 0 1 0 40 t in
  let blur := gsap.mapRange 0 1 0 6 t in
  let brightness := gsap.mapRange 0 1 1 0.6 t in
  let parallaxX :=
    gsap.mapRange (- innerWidth w / 2) (innerWidth w / 2)
                  parallaxRange (- parallaxRange)
                  (cardCenterX s i - visibleCenterX s) in
  let parallaxY :=
    gsap.mapRange (- innerWidth w / 2) (innerWidth w / 2)
                  (-10) 10
                  (cardCenterX s i - visibleCenterX s) in
  ({| card_x := finalX s i;
      card_y := yOffset;
      card_scaleX := scale;
      card_scaleY := scale;
      card_rotationY := rotateY;
      card_rotationX := rotateX;
      card_z := z;
      card_blur := blur;
      card_brightness := brightness |},
   {| img_x := parallaxX; img_y := parallaxY |}).

(** The first statement of the ticker callback: velocity integration and
    friction, skipped while a mouse drag is active. *)
Definition integrate (s : State) : State :=
  if negb (isDragging s) then
    set_velocity (velocity s * friction)
                 (set_position (position s + velocity s) s)
  else s.

(** The second statement: [smoothPos] follows [position]. *)
Definition smooth (s : State) : State :=
  set_smoothPos (smoothPos s + (position s - smoothPos s) * lerpSpeed) s.

(** The ticker callback: the new globals and, card by card, what is sent to
    the renderer. *)
Definition tick (w : Window) (s : State)
  : State * list (CardProps * ImgProps) :=
  let s' := smooth (integrate s) in
  (s', map (renderCard s' w) (seq 0 (length (cards s')))).

(** ** Events *)

Inductive Event :=
| Wheel (deltaY : Q)
| TouchStart (clientX : Q)
| TouchMove (clientX : Q)
| TouchEnd
| MouseDown (clientX now : Q)
| MouseUp (clientX now : Q)
| MouseMove (clientX : Q)
| Resize (w : Window)
| Frame (w : Window).

Definition handle (e : Event) (s : State) : State :=
  match e with
  | Wheel dy => onWheel dy s
  | TouchStart x => onTouchStart x s
  | TouchMove x => onTouchMove x s
  | TouchEnd => onTouchEnd s
  | MouseDown x now => onMouseDown x now s
  | MouseUp x now => onMouseUp x now s
  | MouseMove x => onMouseMove x s
  | Resize w => onResize w s
  | Frame w => fst (tick w s)
  end.

(** The host delivers events one at a time. *)
Definition run (es : list Event) (s : State) : State :=
  fold_left (fun st e => handle e st) es s.

(** [n] frames in a row with no event in between. *)
Fixpoint frames (n : nat) (w : Window) (s : State) : State :=
  match n with
  | O => s
  | S k => frames k w (fst (tick w s))
  end.

(** The states the script can be in: the one the top-level statements build,
    and whatever the listeners and the ticker make of it. *)
Inductive reachable : State -> Prop :=
| reach_init (originals : list Card) (w : Window) (s : State) :
    init originals w = Some s -> reachable s
| reach_step (e : Event) (s : State) :
    reachable s -> reachable (handle e s).

(** An event that is a drag move (mouse or touch). *)
Definition isDragMove (e : Event) : bool :=
  match e with
  | MouseMove _ | TouchMove _ => true
  | _ => false
  end.

(** An event that is a frame tick. *)
Definition isFrame (e : Event) : bool :=
  match e with
  | Frame _ => true
  | _ => false
  end.

(** ** A sample page

    Two original cards of 300px with a 20px right margin in a window 1200px
    wide: six cards on the track, 320px each, 1920px in all. *)

Definition demoWindow : Window :=
  {| innerWidth := 1200; offsetWidth := 300; marginRight := 20 |}.

Definition demoState : State :=
  {| cards := [0; 1; 0; 1; 0; 1]%nat;
     itemW := 300 + 20;
     totalWidth := (300 + 20) * Num.of_nat 6;
     visibleCenterX := 1200 / 2;
     position := 0;
     velocity := 0;
     smoothPos := 0;
     touchStartX := None;
     isDragging := false;
     lastX := 0;
     dragStartTime := 0;
     dragStartX := 0;
     draggingClass := false |}.

(** The sample page after a mouse press at X=100 at time 0 and one wheel
    notch during the drag. *)
Definition demoDragging : State :=
  run [MouseDown 100 0; Wheel 100] demoState.

(** The sample page after a finger has dragged from X=0 to X=100. *)
Definition demoTouched : State :=
  run [TouchStart 0; TouchMove 100] demoState.

(** ** Vocabulary for runs of events *)

(** The events that continue or end a gesture: they only act after a press
    (mouse) or a touch start. *)
Definition isGestureTail (e : Event) : bool :=
  match e with
  | TouchMove _ | TouchEnd | MouseMove _ | MouseUp _ _ => true
  | _ => false
  end.

(** * Properties *)

(** ** Host numbers *)

Lemma ltb_lt (x y : Q) : Num.ltb x y = true <-> x < y.
Proof.
  unfold Num.ltb. rewrite negb_true_iff.
  split; intro H.
  - apply Qnot_le_lt. intro Hle. apply Qle_bool_iff in Hle. congruence.
  - destruct (Qle_bool y x) eqn:E; [| reflexivity].
    apply Qle_bool_iff in E. exfalso. apply (Qlt_not_le _ _ H E).
Qed.

Lemma ltb_ge (x y : Q) : Num.ltb x y = false <-> y <= x.
Proof.
  unfold Num.ltb. rewrite negb_false_iff. apply Qle_bool_iff.
Qed.

Lemma trunc_nonneg (q : Q) :
  0 <= q -> inject_Z (Num.trunc q) <= q /\ q < inject_Z (Num.trunc q) + 1.
Proof.
  intro Hq. unfold Num.trunc.
  apply Qle_bool_iff in Hq. rewrite Hq.
  split.
  - apply Qfloor_le.
  - rewrite <- (inject_Z_plus _ 1). apply Qlt_floor.
Qed.

Lemma trunc_nonpos (q : Q) :
  q <= 0 -> inject_Z (Num.trunc q) - 1 < q /\ q <= inject_Z (Num.trunc q).
Proof.
  intro Hq. unfold Num.trunc.
  destruct (Qle_bool 0 q) eqn:E.
  - apply Qle_bool_iff in E.
    assert (H0 : q == 0) by (apply Qle_antisym; assumption).
    pose proof (Qfloor_le q) as Hf. pose proof (Qlt_floor q) as Hc.
    rewrite inject_Z_plus in Hc. change (inject_Z 1) with 1 in Hc.
    assert (Hz : Qfloor q = 0%Z).
    { assert (H1 : (inject_Z (Qfloor q) <= 0)) by lra.
      assert (H2 : (0 < inject_Z (Qfloor q) + 1)) by lra.
      rewrite <- (inject_Z_plus _ 1) in H2.
      change 0 with (inject_Z 0) in H1, H2.
      rewrite <- Zle_Qle in H1. rewrite <- Zlt_Qlt in H2. lia. }
    rewrite Hz. change (inject_Z 0) with 0. lra.
  - split.
    + pose proof (Qceiling_lt q) as Hc.
      unfold Z.sub in Hc. rewrite inject_Z_plus, inject_Z_opp in Hc.
      change (inject_Z 1) with 1 in Hc. lra.
    + apply Qle_ceiling.
Qed.

Lemma div_mul (x m : Q) : ~ m == 0 -> x / m * m == x.
Proof. intro Hm. field. exact Hm. Qed.

(** The remainder of a non-negative dividend lies in [[0, m)]. *)
Lemma rem_nonneg (x m : Q) :
  0 < m -> 0 <= x -> 0 <= Num.rem x m /\ Num.rem x m < m.
Proof.
  intros Hm Hx. unfold Num.rem.
  assert (Hm0 : ~ m == 0) by lra.
  pose proof (div_mul x m Hm0) as Hq.
  assert (Hq0 : 0 <= x / m).
  { apply Qle_shift_div_l; lra. }
  destruct (trunc_nonneg _ Hq0) as [Hlo Hhi].
  set (q := x / m) in *. set (k := inject_Z (Num.trunc q)) in *.
  split; nra.
Qed.

(** The remainder of a non-positive dividend lies in [(-m, 0]]. *)
Lemma rem_nonpos (x m : Q) :
  0 < m -> x <= 0 -> - m < Num.rem x m /\ Num.rem x m <= 0.
Proof.
  intros Hm Hx. unfold Num.rem.
  assert (Hm0 : ~ m == 0) by lra.
  pose proof (div_mul x m Hm0) as Hq.
  assert (Hq0 : x / m <= 0).
  { apply Qle_shift_div_r; lra. }
  destruct (trunc_nonpos _ Hq0) as [Hlo Hhi].
  set (q := x / m) in *. set (k := inject_Z (Num.trunc q)) in *.
  split; nra.
Qed.

Lemma rem_bounds (x m : Q) :
  0 < m -> - m < Num.rem x m /\ Num.rem x m < m.
Proof.
  intro Hm.
  destruct (Qlt_le_dec x 0) as [Hx | Hx].
  - destruct (rem_nonpos x m Hm) as [H1 H2]; [lra |]. split; lra.
  - destruct (rem_nonneg x m Hm Hx) as [H1 H2]. split; lra.
Qed.

Lemma trunc_comp (q q' : Q) : q == q' -> Num.trunc q = Num.trunc q'.
Proof.
  intro H. unfold Num.trunc.
  rewrite (Qleb_comp 0 0 (Qeq_refl 0) q q' H).
  destruct (Qle_bool 0 q'); [apply Qfloor_comp | apply Qceiling_comp]; exact H.
Qed.

Lemma trunc_Z (k : Z) : Num.trunc (inject_Z k) = k.
Proof.
  unfold Num.trunc.
  destruct (Qle_bool 0 (inject_Z k)); [apply Qfloor_Z | apply Qceiling_Z].
Qed.

Lemma rem_comp (x x' m : Q) : x == x' -> Num.rem x m == Num.rem x' m.
Proof.
  intro H. unfold Num.rem.
  assert (Hq : x / m == x' / m) by (rewrite H; reflexivity).
  rewrite (trunc_comp _ _ Hq), H. reflexivity.
Qed.

(** The remainder of a whole multiple of the modulus is zero. *)
Lemma rem_multiple (k : Z) (m : Q) :
  ~ m == 0 -> Num.rem (inject_Z k * m) m == 0.
Proof.
  intro Hm. unfold Num.rem.
  assert (Hq : inject_Z k * m / m == inject_Z k) by (field; exact Hm).
  rewrite (trunc_comp _ _ Hq), trunc_Z. ring.
Qed.

(** [wrap] moves its argument by a whole number of track widths. *)
Lemma wrap_congruent (s : State) (x : Q) :
  exists k : Z, wrap s x == x + inject_Z k * totalWidth s.
Proof.
  unfold wrap, Num.rem.
  set (m := totalWidth s).
  set (k1 := Num.trunc (x / m)).
  set (k2 := Num.trunc ((x - m * inject_Z k1 + m) / m)).
  exists (1 - k1 - k2)%Z.
  unfold Z.sub. rewrite !inject_Z_plus, !inject_Z_opp.
  change (inject_Z 1) with 1. ring.
Qed.

Lemma wrap_multiple (s : State) (k : Z) :
  ~ totalWidth s == 0 -> wrap s (inject_Z k * totalWidth s) == 0.
Proof.
  intro Hm. unfold wrap.
  assert (H1 : Num.rem (inject_Z k * totalWidth s) (totalWidth s)
                 + totalWidth s == inject_Z 1 * totalWidth s).
  { rewrite (rem_multiple k _ Hm). change (inject_Z 1) with 1. ring. }
  rewrite (rem_comp _ _ _ H1). apply rem_multiple. exact Hm.
Qed.

(** C1. For every x and every track width m > 0 (the global totalWidth),
    wrap(x) lies in the half-open interval [0, m): the inner remainder is
    above -m whatever the sign of x, so adding m gives a positive dividend,
    whose remainder is in [0, m).  An x that is a whole multiple of m is sent
    to 0. *)
Theorem wrap_in_range (s : State) (x : Q) :
  0 < totalWidth s ->
  (0 <= wrap s x /\ wrap s x < totalWidth s) /\
  (forall k : Z, x == inject_Z k * totalWidth s -> wrap s x == 0).
Proof.
  intro Hm. split.
  - unfold wrap.
    destruct (rem_bounds x (totalWidth s) Hm) as [Hlo _].
    apply rem_nonneg; [exact Hm | lra].
  - intros k Hx. unfold wrap.
    assert (Hr : Num.rem x (totalWidth s) + totalWidth s ==
                 Num.rem (inject_Z k * totalWidth s) (totalWidth s)
                 + totalWidth s)
      by (rewrite (rem_comp _ _ _ Hx); reflexivity).
    rewrite (rem_comp _ _ _ Hr).
    apply (wrap_multiple s k). lra.
Qed.

(** ** The ease curve *)

Lemma easeScale_low (t : Q) : t < 0.5 -> easeScale t = 2 * t * t.
Proof.
  intro H. unfold easeScale. apply ltb_lt in H. rewrite H. reflexivity.
Qed.

Lemma easeScale_high (t : Q) :
  0.5 <= t -> easeScale t = -1 + (4 - 2 * t) * t.
Proof.
  intro H. unfold easeScale. apply ltb_ge in H. rewrite H. reflexivity.
Qed.

(** Case analysis on the branch [easeScale] takes at [t]. *)
Ltac ease_cases t :=
  let H := fresh "Hbranch" in
  destruct (Qlt_le_dec t 0.5) as [H | H];
  [ rewrite (easeScale_low t H) | rewrite (easeScale_high t H) ].

Lemma easeScale_range (t : Q) :
  0 <= t -> t <= 1 -> 0 <= easeScale t /\ easeScale t <= 1.
Proof.
  intros H0 H1. ease_cases t; split; nra.
Qed.




#[local] Set Warnings "-inexact-float".


#[local] Set Warnings "+inexact-float".

(** ** Per-card visual channels *)

Lemma clamp_unit (v : Q) :
  0 <= gsap.clamp 0 1 v /\ gsap.clamp 0 1 v <= 1.
Proof.
  unfold gsap.clamp, Num.gtb.
  destruct (Num.ltb v 0) eqn:E0; [split; lra |].
  destruct (Num.ltb 1 v) eqn:E1; [split; lra |].
  apply ltb_ge in E0. apply ltb_ge in E1. split; assumption.
Qed.

(** From the unit interval [mapRange] is the affine map through the two
    output ends. *)
Lemma mapRange_unit (a b t : Q) :
  gsap.mapRange 0 1 a b t == a + t * (b - a).
Proof. unfold gsap.mapRange. field. Qed.

Lemma easedDistance_unit (s : State) (w : Window) (i : nat) :
  0 <= easedDistance s w i /\ easedDistance s w i <= 1.
Proof.
  unfold easedDistance.
  match goal with |- context [gsap.clamp 0 1 ?v] =>
    destruct (clamp_unit v) as [H0 H1] end.
  apply easeScale_range; assumption.
Qed.



(** ** What every reachable state satisfies *)

Lemma handle_cards (e : Event) (s : State) : cards (handle e s) = cards s.
Proof.
  destruct e; cbn [handle]; try reflexivity.
  - unfold onTouchMove. destruct (touchStartX s); reflexivity.
  - unfold onMouseUp. destruct (isDragging s); [| reflexivity].
    destruct (Num.gtb _ 0); reflexivity.
  - unfold onMouseMove. destruct (negb (isDragging s)); reflexivity.
  - unfold onResize. destruct (getItemWidth (cards s) w); reflexivity.
  - unfold tick, integrate. destruct (negb (isDragging s)); reflexivity.
Qed.

Lemma reachable_cards_nonempty (s : State) : reachable s -> cards s <> [].
Proof.
  induction 1 as [originals w s Hinit | e s _ IH].
  - unfold init in Hinit.
    destruct (ensureClones originals) as [| c cs] eqn:E; cbn in Hinit.
    + discriminate.
    + injection Hinit as <-. cbn. discriminate.
  - rewrite handle_cards. exact IH.
Qed.

(** The track width is always the item width times the number of cards. *)
Lemma reachable_geometry (s : State) :
  reachable s ->
  totalWidth s = itemW s * Num.of_nat (length (cards s)).
Proof.
  induction 1 as [originals w s Hinit | e s _ IH].
  - unfold init in Hinit.
    destruct (getItemWidth (ensureClones originals) w); [| discriminate].
    injection Hinit as <-. reflexivity.
  - destruct e; cbn [handle]; try exact IH.
    + unfold onTouchMove. destruct (touchStartX s); exact IH.
    + unfold onMouseUp. destruct (isDragging s); [| exact IH].
      destruct (Num.gtb _ 0); exact IH.
    + unfold onMouseMove. destruct (negb (isDragging s)); exact IH.
    + unfold onResize.
      destruct (getItemWidth (cards s) w); [reflexivity | exact IH].
    + unfold tick, integrate.
      destruct (negb (isDragging s)); exact IH.
Qed.

(** ** The frame loop during a mouse drag *)

Lemma integrate_dragging (s : State) :
  isDragging s = true -> integrate s = s.
Proof. intro H. unfold integrate. rewrite H. reflexivity. Qed.

Lemma tick_dragging_fields (w : Window) (s : State) :
  isDragging s = true ->
  position (fst (tick w s)) = position s /\
  velocity (fst (tick w s)) = velocity s /\
  isDragging (fst (tick w s)) = true.
Proof.
  intro H. unfold tick. cbn [fst].
  rewrite (integrate_dragging s H). cbn. auto.
Qed.

Lemma frames_dragging (n : nat) (w : Window) :
  forall s, isDragging s = true ->
  position (frames n w s) = position s /\
  velocity (frames n w s) = velocity s.
Proof.
  induction n as [| n IH]; intros s H; cbn [frames].
  - auto.
  - destruct (tick_dragging_fields w s H) as [Hp [Hv Hd]].
    destruct (IH _ Hd) as [Hp' Hv'].
    split; congruence.
Qed.

(** C3. A frame tick that runs while a mouse drag is active (isDragging
    true) leaves position and velocity as they were, for one tick and for any
    number of ticks in a row: neither the velocity integration nor the
    friction decay is applied.  During the drag every event other than a
    drag move (mouse move or touch move) leaves position unchanged. *)
Theorem tick_frozen_while_dragging (w : Window) (s : State) :
  isDragging s = true ->
  (position (fst (tick w s)) = position s /\
   velocity (fst (tick w s)) = velocity s) /\
  (forall n, position (frames n w s) = position s /\
             velocity (frames n w s) = velocity s) /\
  (forall e, isDragMove e = false -> position (handle e s) = position s).
Proof.
  intro H. split; [| split].
  - destruct (tick_dragging_fields w s H) as [Hp [Hv _]]. auto.
  - intro n. apply frames_dragging. exact H.
  - intros e He. destruct e; cbn [isDragMove] in He; try discriminate;
      cbn [handle]; try reflexivity.
    + unfold onMouseUp. rewrite H.
      destruct (Num.gtb _ 0); reflexivity.
    + unfold onResize. destruct (getItemWidth (cards s) w0); reflexivity.
    + apply (tick_dragging_fields w0 s H).
Qed.

(** ** Mouse release *)

Lemma max_min_is_clamp (v : Q) :
  Qmax (Qmin v maxVelocity) (- maxVelocity) ==
  gsap.clamp (- maxVelocity) maxVelocity v.
Proof.
  unfold gsap.clamp, Num.gtb, maxVelocity.
  destruct (Num.ltb v (- (30))) eqn:E0.
  - apply ltb_lt in E0.
    destruct (Q.min_spec v 30) as [[Hc' Hm] | [Hc' Hm]];
      destruct (Q.max_spec (Qmin v 30) (- (30))) as [[Hc HM] | [Hc HM]];
      lra.
  - apply ltb_ge in E0.
    destruct (Num.ltb 30 v) eqn:E1.
    + apply ltb_lt in E1.
      destruct (Q.min_spec v 30) as [[Hc' Hm] | [Hc' Hm]];
        destruct (Q.max_spec (Qmin v 30) (- (30))) as [[Hc HM] | [Hc HM]];
        lra.
    + apply ltb_ge in E1.
      destruct (Q.min_spec v 30) as [[Hc' Hm] | [Hc' Hm]];
        destruct (Q.max_spec (Qmin v 30) (- (30))) as [[Hc HM] | [Hc HM]];
        lra.
Qed.

Lemma max_min_range (v : Q) :
  - maxVelocity <= Qmax (Qmin v maxVelocity) (- maxVelocity) /\
  Qmax (Qmin v maxVelocity) (- maxVelocity) <= maxVelocity.
Proof.
  unfold maxVelocity.
  destruct (Q.min_spec v 30) as [[Hc' Hm] | [Hc' Hm]];
    destruct (Q.max_spec (Qmin v 30) (- (30))) as [[Hc HM] | [Hc HM]];
    split; lra.
Qed.

(** Mouse moves keep the drag session's start record and the velocity. *)
Lemma onMouseMove_keeps_session (x : Q) (s : State) :
  isDragging (onMouseMove x s) = isDragging s /\
  dragStartX (onMouseMove x s) = dragStartX s /\
  dragStartTime (onMouseMove x s) = dragStartTime s /\
  velocity (onMouseMove x s) = velocity s.
Proof.
  unfold onMouseMove. destruct (isDragging s) eqn:E; cbn; auto.
Qed.

Lemma mouseMoves_keep_session (xs : list Q) :
  forall s,
  isDragging (run (map MouseMove xs) s) = isDragging s /\
  dragStartX (run (map MouseMove xs) s) = dragStartX s /\
  dragStartTime (run (map MouseMove xs) s) = dragStartTime s /\
  velocity (run (map MouseMove xs) s) = velocity s.
Proof.
  induction xs as [| x xs IH]; intro s.
  - cbn. auto.
  - change (run (map MouseMove (x :: xs)) s)
      with (run (map MouseMove xs) (onMouseMove x s)).
    destruct (IH (onMouseMove x s)) as [H1 [H2 [H3 H4]]].
    destruct (onMouseMove_keeps_session x s) as [K1 [K2 [K3 K4]]].
    repeat split; congruence.
Qed.

Lemma gtb_pos (x : Q) : Num.gtb x 0 = true <-> 0 < x.
Proof. unfold Num.gtb. apply ltb_lt. Qed.

(** With no measurable time between press and release the handler assigns
    nothing: the velocity keeps whatever the wheel gave it during the drag. *)
Lemma mouseup_no_elapsed_time (clientX now : Q) (s : State) :
  isDragging s = true ->
  (now - dragStartTime s) / 1000 <= 0 ->
  velocity (onMouseUp clientX now s) = velocity s.
Proof.
  intros Hd Hdt. unfold onMouseUp. rewrite Hd.
  apply ltb_ge in Hdt. unfold Num.gtb. rewrite Hdt. reflexivity.
Qed.

(** C4. On mouse release while dragging, the dragging state is exited
    whatever the elapsed time; when the elapsed time dt since the press is
    positive, velocity is set to the exit velocity -(totalDx / dt) * 0.03
    clamped to [-30, 30], so the assigned velocity lies in [-30, 30]; from any
    state, a press at X=100 followed by any mouse moves and a release at
    X=200 half a second (500 ms) later leaves velocity = -6. *)
Theorem mouseup_exit_velocity (clientX now : Q) (s : State) :
  isDragging s = true ->
  isDragging (onMouseUp clientX now s) = false /\
  (0 < (now - dragStartTime s) / 1000 ->
     velocity (onMouseUp clientX now s) ==
       gsap.clamp (-30) 30
         (- ((clientX - dragStartX s) / ((now - dragStartTime s) / 1000))
          * 0.03) /\
     -30 <= velocity (onMouseUp clientX now s) /\
     velocity (onMouseUp clientX now s) <= 30) /\
  (forall (s0 : State) (t0 : Q) (moves : list Q),
     velocity (run (MouseDown 100 t0 :: map MouseMove moves
                      ++ [MouseUp 200 (t0 + 500)]) s0) == -6).
Proof.
  intro Hd. split; [| split].
  - unfold onMouseUp. rewrite Hd.
    destruct (Num.gtb _ 0); reflexivity.
  - intro Hdt. unfold onMouseUp. rewrite Hd.
    apply gtb_pos in Hdt. rewrite Hdt. cbn [velocity set_velocity].
    split.
    + apply max_min_is_clamp.
    + apply max_min_range.
  - intros s0 t0 moves. unfold run. cbn [fold_left handle].
    rewrite fold_left_app. cbn [fold_left handle].
    set (s1 := onMouseDown 100 t0 s0).
    destruct (mouseMoves_keep_session moves s1) as [H1 [H2 [H3 _]]].
    unfold run in H1, H2, H3.
    set (s2 := fold_left (fun st e => handle e st) (map MouseMove moves) s1) in *.
    unfold onMouseUp. rewrite H1, H2, H3. cbn [s1 onMouseDown isDragging
      set_velocity set_dragStart set_lastX set_drag dragStartX dragStartTime].
    assert (Hdt : (t0 + 500 - t0) / 1000 == 0.5) by field.
    assert (Hg : Num.gtb ((t0 + 500 - t0) / 1000) 0 = true)
      by (apply gtb_pos; rewrite Hdt; reflexivity).
    rewrite Hg. cbn [velocity set_velocity].
    rewrite max_min_is_clamp.
    assert (Hv : - ((200 - 100) / ((t0 + 500 - t0) / 1000)) * 0.03 == -6).
    { rewrite Hdt. reflexivity. }
    unfold gsap.clamp, Num.gtb, maxVelocity.
    destruct (Num.ltb _ (- (30))) eqn:E0.
    { apply ltb_lt in E0. lra. }
    destruct (Num.ltb 30 _) eqn:E1.
    { apply ltb_lt in E1. lra. }
    exact Hv.
Qed.

(** ** Smoothing *)

Lemma integrate_smoothPos (s : State) : smoothPos (integrate s) = smoothPos s.
Proof. unfold integrate. destruct (negb (isDragging s)); reflexivity. Qed.

Lemma integrate_position (s : State) :
  position (integrate s) =
  if isDragging s then position s else position s + velocity s.
Proof. unfold integrate. destruct (isDragging s); reflexivity. Qed.

Lemma integrate_velocity (s : State) :
  velocity (integrate s) =
  if isDragging s then velocity s else velocity s * friction.
Proof. unfold integrate. destruct (isDragging s); reflexivity. Qed.

Lemma tick_position (w : Window) (s : State) :
  position (fst (tick w s)) = position (integrate s).
Proof. reflexivity. Qed.

Lemma tick_velocity (w : Window) (s : State) :
  velocity (fst (tick w s)) = velocity (integrate s).
Proof. reflexivity. Qed.

Lemma tick_smoothPos (w : Window) (s : State) :
  smoothPos (fst (tick w s)) =
  smoothPos s + (position (integrate s) - smoothPos s) * lerpSpeed.
Proof.
  unfold tick. cbn [fst smooth smoothPos set_smoothPos].
  rewrite integrate_smoothPos. reflexivity.
Qed.

(** C6. On every frame tick the new smoothPos is the old smoothPos plus
    lerpSpeed = 0.14 times the gap between position and the old smoothPos,
    where position is the value it has when the smoothing statement runs
    (after this tick's integration step: unchanged during a drag, advanced by
    velocity otherwise); no input handler and no resize handler touches
    smoothPos. *)
Theorem smoothPos_follows_position (w : Window) (s : State) :
  lerpSpeed = 0.14 /\
  smoothPos (fst (tick w s)) =
    smoothPos s + (position (fst (tick w s)) - smoothPos s) * lerpSpeed /\
  position (fst (tick w s)) =
    (if isDragging s then position s else position s + velocity s) /\
  (forall e, isFrame e = false -> smoothPos (handle e s) = smoothPos s).
Proof.
  split; [reflexivity |].
  split; [rewrite tick_position; apply tick_smoothPos |].
  split; [rewrite tick_position; apply integrate_position |].
  intros e He. destruct e; cbn [isFrame] in He; try discriminate;
    cbn [handle]; try reflexivity.
  - unfold onTouchMove. destruct (touchStartX s); reflexivity.
  - unfold onMouseUp. destruct (isDragging s); [| reflexivity].
    destruct (Num.gtb _ 0); reflexivity.
  - unfold onMouseMove. destruct (negb (isDragging s)); reflexivity.
  - unfold onResize. destruct (getItemWidth (cards s) w0); reflexivity.
Qed.

(** ** Frames without input *)

Lemma tick_idle (w : Window) (s : State) :
  velocity s == 0 ->
  position (fst (tick w s)) == position s /\
  velocity (fst (tick w s)) == 0 /\
  (smoothPos s == position s -> smoothPos (fst (tick w s)) == smoothPos s).
Proof.
  intro Hv.
  assert (Hp : position (integrate s) == position s).
  { rewrite integrate_position. destruct (isDragging s); lra. }
  assert (Hv' : velocity (integrate s) == 0).
  { rewrite integrate_velocity. unfold friction.
    destruct (isDragging s); lra. }
  rewrite tick_position, tick_velocity, tick_smoothPos.
  unfold lerpSpeed.
  split; [exact Hp | split; [exact Hv' |]].
  intro Hs. lra.
Qed.

Lemma frames_idle (n : nat) (w : Window) :
  forall s, velocity s == 0 ->
  position (frames n w s) == position s /\
  velocity (frames n w s) == 0 /\
  (smoothPos s == position s -> smoothPos (frames n w s) == smoothPos s).
Proof.
  induction n as [| n IH]; intros s Hv; cbn [frames].
  - split; [reflexivity | split; [exact Hv | reflexivity]].
  - destruct (tick_idle w s Hv) as [Hp [Hv1 Hs]].
    destruct (IH _ Hv1) as [Hp' [Hv' Hs']].
    split; [lra | split; [exact Hv' |]].
    intro Heq. specialize (Hs Heq).
    assert (Hgap : smoothPos (fst (tick w s)) == position (fst (tick w s)))
      by lra.
    specialize (Hs' Hgap). lra.
Qed.

(** C7 (as the code has it). With no input event and velocity equal to 0,
    position stays constant over any number of successive frame ticks and
    velocity stays 0; smoothPos stays constant as well when it already equals
    position. *)
Theorem idle_frames_constant (n : nat) (w : Window) (s : State) :
  velocity s == 0 ->
  position (frames n w s) == position s /\
  velocity (frames n w s) == 0 /\
  (smoothPos s == position s -> smoothPos (frames n w s) == smoothPos s).
Proof.
  intro Hv. apply frames_idle. exact Hv.
Qed.

(** ** Resize *)

(** C8. The resize handler recomputes itemW from the layout of the first
    card, totalWidth = itemW * number of cards, and visibleCenterX = half the
    window width; position, velocity, smoothPos and the card sequence are left
    as they were.  The track holds at least one card, as it does in every
    state the script reaches. *)
Theorem resize_recomputes_geometry (w : Window) (s : State) :
  cards s <> [] ->
  itemW (onResize w s) = offsetWidth w + marginRight w /\
  totalWidth (onResize w s) =
    itemW (onResize w s) * Num.of_nat (length (cards (onResize w s))) /\
  visibleCenterX (onResize w s) = innerWidth w / 2 /\
  position (onResize w s) = position s /\
  velocity (onResize w s) = velocity s /\
  smoothPos (onResize w s) = smoothPos s /\
  cards (onResize w s) = cards s.
Proof.
  intro Hne. unfold onResize, getItemWidth.
  destruct (cards s) as [| c cs] eqn:E; [congruence |].
  cbn. rewrite E. repeat split; reflexivity.
Qed.

(** ** Wheel *)

(** C9. A wheel event adds deltaY * wheelMultiplier to velocity and leaves
    every other global (position, smoothPos, the drag and touch sessions, the
    geometry, the cards) as it was; wheelMultiplier is 0.1, so deltaY = 100
    adds exactly 10. *)
Theorem wheel_adds_velocity (deltaY : Q) (s : State) :
  velocity (onWheel deltaY s) = velocity s + deltaY * wheelMultiplier /\
  (position (onWheel deltaY s) = position s /\
   smoothPos (onWheel deltaY s) = smoothPos s /\
   isDragging (onWheel deltaY s) = isDragging s /\
   lastX (onWheel deltaY s) = lastX s /\
   dragStartX (onWheel deltaY s) = dragStartX s /\
   dragStartTime (onWheel deltaY s) = dragStartTime s /\
   touchStartX (onWheel deltaY s) = touchStartX s /\
   draggingClass (onWheel deltaY s) = draggingClass s /\
   itemW (onWheel deltaY s) = itemW s /\
   totalWidth (onWheel deltaY s) = totalWidth s /\
   visibleCenterX (onWheel deltaY s) = visibleCenterX s /\
   cards (onWheel deltaY s) = cards s) /\
  wheelMultiplier = 0.1 /\
  velocity (onWheel 100 s) == velocity s + 10.
Proof.
  split; [reflexivity |].
  split; [repeat split |].
  split; [reflexivity |].
  cbn [onWheel velocity set_velocity]. unfold wheelMultiplier. lra.
Qed.

(** ** Parallax *)

Lemma parallax_linear (s : State) (w : Window) (i : nat) :
  0 < innerWidth w ->
  img_x (snd (renderCard s w i)) ==
    - (80 / innerWidth w) * (cardCenterX s i - visibleCenterX s) /\
  img_y (snd (renderCard s w i)) ==
    20 / innerWidth w * (cardCenterX s i - visibleCenterX s).
Proof.
  intro Hw.
  cbn [snd renderCard img_x img_y]. unfold gsap.mapRange, parallaxRange.
  split; field; lra.
Qed.


(** ** The sample page *)

Example init_demo : init [0; 1]%nat demoWindow = Some demoState.
Proof. reflexivity. Qed.

Lemma demoState_reachable : reachable demoState.
Proof. exact (reach_init [0; 1]%nat demoWindow demoState init_demo). Qed.

(** Both sample sessions are states the script reaches from the sample
    page. *)
Lemma demo_sessions_reachable : reachable demoDragging /\ reachable demoTouched.
Proof.
  split.
  - exact (reach_step (Wheel 100) _
             (reach_step (MouseDown 100 0) _ demoState_reachable)).
  - exact (reach_step (TouchMove 100) _
             (reach_step (TouchStart 0) _ demoState_reachable)).
Qed.

Example ensureClones_three (originals : list Card) :
  ensureClones originals = originals ++ originals ++ originals.
Proof. unfold ensureClones. cbn. rewrite app_nil_r. reflexivity. Qed.

Example wrap_demo_values :
  wrap demoState (-150) == 1770 /\
  wrap demoState 3840 == 0 /\
  wrap demoState (-1920) == 0 /\
  wrap demoState 2000 == 80.
Proof. repeat (split; [reflexivity |]). reflexivity. Qed.

Lemma wrap_in_range_witness :
  0 < totalWidth demoState /\
  (0 <= wrap demoState (-150) /\ wrap demoState (-150) < totalWidth demoState).
Proof.
  split; [reflexivity |].
  apply (proj1 (wrap_in_range demoState (-150) eq_refl)).
Defined.

Lemma tick_frozen_while_dragging_witness :
  isDragging demoDragging = true /\
  velocity demoDragging == 10 /\
  position (fst (tick demoWindow demoDragging)) = position demoDragging /\
  velocity (fst (tick demoWindow demoDragging)) = velocity demoDragging.
Proof.
  split; [reflexivity |].
  split; [reflexivity |].
  apply (proj1 (tick_frozen_while_dragging demoWindow demoDragging eq_refl)).
Defined.

Lemma mouseup_exit_velocity_witness :
  isDragging demoDragging = true /\
  isDragging (onMouseUp 200 500 demoDragging) = false /\
  velocity (onMouseUp 200 500 demoDragging) == -6.
Proof.
  split; [reflexivity |].
  split.
  - apply (proj1 (mouseup_exit_velocity 200 500 demoDragging eq_refl)).
  - reflexivity.
Defined.


(** C7, as stated, fails on the sample page after a touch drag: velocity is
    0 and no further event arrives, yet the next tick moves smoothPos from 0
    to -14 (0.14 of the gap to position = -100). *)
Lemma idle_tick_moves_smoothPos :
  velocity demoTouched == 0 /\
  position demoTouched == -100 /\
  smoothPos demoTouched == 0 /\
  position (fst (tick demoWindow demoTouched)) == -100 /\
  smoothPos (fst (tick demoWindow demoTouched)) == -14 /\
  ~ smoothPos (fst (tick demoWindow demoTouched)) == smoothPos demoTouched.
Proof.
  repeat (split; [reflexivity |]).
  intro H. discriminate H.
Qed.

Lemma idle_frames_constant_witness :
  velocity demoTouched == 0 /\
  position (frames 3 demoWindow demoTouched) == position demoTouched /\
  velocity (frames 3 demoWindow demoTouched) == 0.
Proof.
  split; [reflexivity |].
  destruct (idle_frames_constant 3 demoWindow demoTouched (Qeq_refl _))
    as [Hp [Hv _]].
  split; [exact Hp | exact Hv].
Defined.

Lemma resize_recomputes_geometry_witness :
  cards demoState <> [] /\
  itemW (onResize (mkWindow 800 200 10) demoState) = 200 + 10 /\
  position (onResize (mkWindow 800 200 10) demoState) = position demoState.
Proof.
  assert (Hne : cards demoState <> []) by discriminate.
  split; [exact Hne |].
  destruct (resize_recomputes_geometry (mkWindow 800 200 10) demoState Hne)
    as [Hi [_ [_ [Hp _]]]].
  split; [exact Hi | exact Hp].
Defined.


(** * Further properties of the script *)

(** ** Track builder and start-up *)

(** X1. ensureClones fills the track with three consecutive copies of the
    original cards: the track holds 3n cards, and the card at index i < 3n is
    a clone of original number i mod n. *)
Theorem ensureClones_layout (originals : list Card) (i : nat) :
  length (ensureClones originals) = (3 * length originals)%nat /\
  ((i < 3 * length originals)%nat ->
   nth_error (ensureClones originals) i =
   nth_error originals (i mod length originals)).
Proof.
  rewrite ensureClones_three. split.
  - rewrite !length_app. lia.
  - intro Hi. set (n := length originals) in *.
    destruct (Nat.lt_ge_cases i n) as [H1 | H1].
    + rewrite nth_error_app1 by exact H1.
      rewrite Nat.mod_small by exact H1. reflexivity.
    + rewrite nth_error_app2 by exact H1. fold n.
      destruct (Nat.lt_ge_cases (i - n) n) as [H2 | H2].
      * rewrite nth_error_app1 by exact H2.
        rewrite <- (Nat.mod_unique i n 1 (i - n)); [reflexivity | exact H2 | lia].
      * rewrite nth_error_app2 by exact H2. fold n.
        rewrite <- (Nat.mod_unique i n 2 (i - n - n)); [reflexivity | lia | lia].
Qed.

Lemma ensureClones_layout_witness :
  (4 < 3 * length [7; 8]%nat)%nat /\
  nth_error (ensureClones [7; 8]%nat) 4 = nth_error [7; 8]%nat (4 mod 2).
Proof.
  assert (H : (4 < 3 * length [7; 8]%nat)%nat) by (cbn; lia).
  split; [exact H |].
  exact (proj2 (ensureClones_layout [7; 8]%nat 4) H).
Defined.

(** X2. The script starts exactly when the track holds at least one card:
    with no card getItemWidth throws on cards[0] and nothing is set up; with
    n >= 1 originals it starts at rest (position, velocity and smoothPos 0, no
    drag, no touch) on a track of 3n cards whose width is 3n item widths,
    centered on half the window width. *)
Theorem init_starts_iff_cards (originals : list Card) (w : Window) :
  (init originals w = None <-> originals = []) /\
  (forall s, init originals w = Some s ->
     cards s = originals ++ originals ++ originals /\
     itemW s = offsetWidth w + marginRight w /\
     totalWidth s ==
       3 * Num.of_nat (length originals) * (offsetWidth w + marginRight w) /\
     visibleCenterX s = innerWidth w / 2 /\
     position s = 0 /\ velocity s = 0 /\ smoothPos s = 0 /\
     isDragging s = false /\ touchStartX s = None).
Proof.
  split.
  - unfold init. rewrite ensureClones_three.
    destruct originals as [| c cs]; cbn; split; intro H;
      try reflexivity; discriminate.
  - intros s Hs. unfold init in Hs.
    destruct (getItemWidth (ensureClones originals) w) as [iw |] eqn:G;
      [| discriminate].
    assert (Hiw : iw = offsetWidth w + marginRight w).
    { unfold getItemWidth in G.
      destruct (ensureClones originals); [discriminate | congruence]. }
    injection Hs as <-. subst iw.
    cbn [cards itemW totalWidth visibleCenterX position
      velocity smoothPos isDragging touchStartX].
    rewrite ensureClones_three.
    repeat split.
    rewrite !length_app. unfold Num.of_nat.
    rewrite !Nat2Z.inj_add, !inject_Z_plus. ring.
Qed.

(** ** Events outside a gesture *)

Lemma state_eta (s : State) :
  mkState (cards s) (itemW s) (totalWidth s) (visibleCenterX s)
          (position s) (velocity s) (smoothPos s) (touchStartX s)
          (isDragging s) (lastX s) (dragStartTime s) (dragStartX s)
          (draggingClass s) = s.
Proof. destruct s. reflexivity. Qed.

(** X5. Without a gesture in progress (no touch start recorded, no mouse
    drag active) touch moves, touch ends, mouse moves and mouse releases are
    ignored: any run of them leaves every global as it was. *)
Theorem stray_gesture_events_ignored (es : list Event) (s : State) :
  touchStartX s = None ->
  isDragging s = false ->
  forallb isGestureTail es = true ->
  run es s = s.
Proof.
  intros Ht Hd. induction es as [| e es IH]; intro Hes.
  - reflexivity.
  - cbn [forallb] in Hes. apply andb_true_iff in Hes. destruct Hes as [He Hes].
    change (run (e :: es) s) with (run es (handle e s)).
    assert (Hs : handle e s = s).
    { destruct e; cbn [isGestureTail] in He; try discriminate; cbn [handle].
      - unfold onTouchMove. rewrite Ht. reflexivity.
      - unfold onTouchEnd, set_touchStartX. rewrite <- Ht. apply state_eta.
      - unfold onMouseUp. rewrite Hd. reflexivity.
      - unfold onMouseMove. rewrite Hd. reflexivity. }
    rewrite Hs. apply IH. exact Hes.
Qed.

Lemma stray_gesture_events_ignored_witness :
  touchStartX demoState = None /\
  isDragging demoState = false /\
  run [MouseMove 300; MouseUp 300 40; TouchMove 20; TouchEnd] demoState
    = demoState.
Proof.
  split; [reflexivity |].
  split; [reflexivity |].
  exact (stray_gesture_events_ignored
           [MouseMove 300; MouseUp 300 40; TouchMove 20; TouchEnd]
           demoState eq_refl eq_refl eq_refl).
Defined.

(** ** Mouse drag *)

(** X6. A mouse press stops the carousel: after a press and any number of
    mouse moves the velocity is 0 whatever it was before (the press discards
    the momentum and moves create none), the drag is active, and frame ticks
    that run before the release leave position and velocity where they
    are. *)
Theorem mouse_press_stops_motion
    (x0 t0 : Q) (xs : list Q) (s : State) (n : nat) (w : Window) :
  velocity (run (MouseDown x0 t0 :: map MouseMove xs) s) = 0 /\
  isDragging (run (MouseDown x0 t0 :: map MouseMove xs) s) = true /\
  position (frames n w (run (MouseDown x0 t0 :: map MouseMove xs) s)) =
    position (run (MouseDown x0 t0 :: map MouseMove xs) s) /\
  velocity (frames n w (run (MouseDown x0 t0 :: map MouseMove xs) s)) = 0.
Proof.
  change (run (MouseDown x0 t0 :: map MouseMove xs) s)
    with (run (map MouseMove xs) (onMouseDown x0 t0 s)).
  set (s1 := onMouseDown x0 t0 s).
  destruct (mouseMoves_keep_session xs s1) as [Hd [_ [_ Hv]]].
  destruct (frames_dragging n w _ Hd) as [Hfp Hfv].
  split; [rewrite Hv; reflexivity |].
  split; [exact Hd |].
  split; [exact Hfp |].
  rewrite Hfv, Hv. reflexivity.
Qed.

(** ** Release velocity *)

Lemma exit_ratio (dx e : Q) :
  0 < e -> dx / (e / 1000) * e == 1000 * dx.
Proof. intro He. field. lra. Qed.

(** X7. The momentum of a release opposes the drag and saturates for a fast
    one: with a positive elapsed time, a net travel to the right gives a
    velocity <= 0 and a net travel to the left a velocity >= 0, and a travel
    of at least two pixels per elapsed millisecond gives exactly -30 (to the
    right) or 30 (to the left). *)
Theorem release_opposes_drag_and_saturates (clientX now : Q) (s : State) :
  isDragging s = true ->
  0 < now - dragStartTime s ->
  (dragStartX s <= clientX -> velocity (onMouseUp clientX now s) <= 0) /\
  (clientX <= dragStartX s -> 0 <= velocity (onMouseUp clientX now s)) /\
  (2 * (now - dragStartTime s) <= clientX - dragStartX s ->
     velocity (onMouseUp clientX now s) == -30) /\
  (2 * (now - dragStartTime s) <= dragStartX s - clientX ->
     velocity (onMouseUp clientX now s) == 30).
Proof.
  intros Hd He.
  assert (Hdt : 0 < (now - dragStartTime s) / 1000)
    by (apply Qlt_shift_div_l; lra).
  unfold onMouseUp. rewrite Hd.
  rewrite (proj2 (gtb_pos _) Hdt). cbn [velocity set_velocity set_drag].
  pose proof (exit_ratio (clientX - dragStartX s) _ He) as Hr.
  set (e := now - dragStartTime s) in *.
  set (dx := clientX - dragStartX s) in *.
  set (r := dx / (e / 1000)) in *. clearbody r.
  unfold maxVelocity.
  assert (Hcases :
    forall v, (v <= 0 -> Qmax (Qmin v 30) (- (30)) <= 0) /\
              (0 <= v -> 0 <= Qmax (Qmin v 30) (- (30))) /\
              (v <= -30 -> Qmax (Qmin v 30) (- (30)) == -30) /\
              (30 <= v -> Qmax (Qmin v 30) (- (30)) == 30)).
  { intro v.
    destruct (Q.min_spec v 30) as [[Hc' Hm] | [Hc' Hm]];
      destruct (Q.max_spec (Qmin v 30) (- (30))) as [[Hc HM] | [Hc HM]];
      (split; [| split; [| split]]); intro; lra. }
  destruct (Hcases (- r * 0.03)) as [C1 [C2 [C3 C4]]].
  assert (Sign1 : 0 <= dx -> 0 <= r).
  { intro H. destruct (Qlt_le_dec r 0) as [Hn | Hn]; [| exact Hn].
    pose proof (Qmult_lt_compat_r _ _ e He Hn). exfalso. lra. }
  assert (Sign2 : dx <= 0 -> r <= 0).
  { intro H. destruct (Qlt_le_dec 0 r) as [Hn | Hn]; [| exact Hn].
    pose proof (Qmult_lt_compat_r _ _ e He Hn). exfalso. lra. }
  assert (Fast1 : 2 * e <= dx -> 2000 <= r).
  { intro H. destruct (Qlt_le_dec r 2000) as [Hn | Hn]; [| exact Hn].
    pose proof (Qmult_lt_compat_r _ _ e He Hn). exfalso. lra. }
  assert (Fast2 : 2 * e <= - dx -> r <= -2000).
  { intro H. destruct (Qlt_le_dec (-2000) r) as [Hn | Hn]; [| exact Hn].
    pose proof (Qmult_lt_compat_r _ _ e He Hn). exfalso. lra. }
  split; [| split; [| split]]; intro H.
  - apply C1. assert (0 <= r) by (apply Sign1; unfold dx; lra). lra.
  - apply C2. assert (r <= 0) by (apply Sign2; unfold dx; lra). lra.
  - apply C3. assert (2000 <= r) by (apply Fast1; exact H). lra.
  - apply C4. assert (r <= -2000) by (apply Fast2; unfold dx; lra). lra.
Qed.

Lemma release_opposes_drag_and_saturates_witness :
  isDragging demoDragging = true /\
  0 < 40 - dragStartTime demoDragging /\
  2 * (40 - dragStartTime demoDragging) <= 400 - dragStartX demoDragging /\
  velocity (onMouseUp 400 40 demoDragging) == -30.
Proof.
  assert (Hd : isDragging demoDragging = true) by reflexivity.
  assert (He : 0 < 40 - dragStartTime demoDragging) by reflexivity.
  assert (Hf : 2 * (40 - dragStartTime demoDragging)
               <= 400 - dragStartX demoDragging)
    by (vm_compute; discriminate).
  split; [exact Hd |]. split; [exact He |]. split; [exact Hf |].
  exact (proj1 (proj2 (proj2
           (release_opposes_drag_and_saturates 400 40 demoDragging Hd He)))
           Hf).
Defined.

(** ** Momentum *)

Lemma tick_free (w : Window) (s : State) :
  isDragging s = false ->
  position (fst (tick w s)) = position s + velocity s /\
  velocity (fst (tick w s)) = velocity s * friction /\
  isDragging (fst (tick w s)) = false.
Proof.
  intro H. rewrite tick_position, tick_velocity.
  rewrite integrate_position, integrate_velocity, H.
  split; [reflexivity | split; [reflexivity |]].
  unfold tick, integrate. rewrite H. cbn. exact H.
Qed.

Lemma frames_succ (n : nat) (w : Window) :
  forall s, frames (S n) w s = fst (tick w (frames n w s)).
Proof.
  induction n as [| n IH]; intro s; [reflexivity |].
  change (frames (S (S n)) w s) with (frames (S n) w (fst (tick w s))).
  rewrite IH. reflexivity.
Qed.

Lemma frames_free_flag (n : nat) (w : Window) :
  forall s, isDragging s = false -> isDragging (frames n w s) = false.
Proof.
  induction n as [| n IH]; intros s Hd; [exact Hd |].
  cbn [frames]. apply IH. apply (tick_free w s Hd).
Qed.

Lemma frames_free_forward (n : nat) (w : Window) :
  forall s, isDragging s = false -> 0 <= velocity s ->
  0 <= velocity (frames n w s) /\
  velocity (frames n w s) <= velocity s /\
  position s <= position (frames n w s).
Proof.
  induction n as [| n IH]; intros s Hd Hv; cbn [frames].
  - split; [exact Hv | split; lra].
  - destruct (tick_free w s Hd) as [Hp [Hv1 Hd1]].
    assert (Hv1' : 0 <= velocity (fst (tick w s)))
      by (rewrite Hv1; unfold friction; lra).
    destruct (IH _ Hd1 Hv1') as [A [B C]].
    rewrite Hp, Hv1 in *. unfold friction in *.
    split; [exact A | split; lra].
Qed.

Lemma frames_free_backward (n : nat) (w : Window) :
  forall s, isDragging s = false -> velocity s <= 0 ->
  velocity (frames n w s) <= 0 /\
  velocity s <= velocity (frames n w s) /\
  position (frames n w s) <= position s.
Proof.
  induction n as [| n IH]; intros s Hd Hv; cbn [frames].
  - split; [exact Hv | split; lra].
  - destruct (tick_free w s Hd) as [Hp [Hv1 Hd1]].
    assert (Hv1' : velocity (fst (tick w s)) <= 0)
      by (rewrite Hv1; unfold friction; lra).
    destruct (IH _ Hd1 Hv1') as [A [B C]].
    rewrite Hp, Hv1 in *. unfold friction in *.
    split; [exact A | split; lra].
Qed.

(** X9. Free momentum only ever decays: over frame ticks without a drag
    (and no event in between) each tick adds the current velocity to position
    and multiplies the velocity by 0.91, so a velocity >= 0 stays >= 0 and
    never grows while position never moves back, and a velocity <= 0 stays
    <= 0 and never grows in size while position never moves forward. *)
Theorem momentum_only_decays (n : nat) (w : Window) (s : State) :
  isDragging s = false ->
  (position (frames (S n) w s) =
     position (frames n w s) + velocity (frames n w s) /\
   velocity (frames (S n) w s) = velocity (frames n w s) * friction) /\
  (0 <= velocity s ->
     0 <= velocity (frames (S n) w s) /\
     velocity (frames (S n) w s) <= velocity (frames n w s) /\
     velocity (frames n w s) <= velocity s /\
     position s <= position (frames n w s) /\
     position (frames n w s) <= position (frames (S n) w s)) /\
  (velocity s <= 0 ->
     velocity (frames (S n) w s) <= 0 /\
     velocity (frames n w s) <= velocity (frames (S n) w s) /\
     velocity s <= velocity (frames n w s) /\
     position (frames n w s) <= position s /\
     position (frames (S n) w s) <= position (frames n w s)).
Proof.
  intro Hd.
  pose proof (frames_free_flag n w s Hd) as Hdn.
  destruct (tick_free w _ Hdn) as [Hp [Hv _]].
  rewrite <- frames_succ in Hp, Hv.
  split; [split; assumption |].
  split; intro Hsign.
  - destruct (frames_free_forward n w s Hd Hsign) as [A [B C]].
    rewrite Hp, Hv. unfold friction.
    split; [lra | split; [lra | split; [exact B | split; [exact C | lra]]]].
  - destruct (frames_free_backward n w s Hd Hsign) as [A [B C]].
    rewrite Hp, Hv. unfold friction.
    split; [lra | split; [lra | split; [exact B | split; [exact C | lra]]]].
Qed.

Lemma momentum_only_decays_witness :
  isDragging (onWheel 100 demoState) = false /\
  position (frames 3 demoWindow (onWheel 100 demoState)) =
    position (frames 2 demoWindow (onWheel 100 demoState))
    + velocity (frames 2 demoWindow (onWheel 100 demoState)).
Proof.
  assert (Hd : isDragging (onWheel 100 demoState) = false) by reflexivity.
  split; [exact Hd |].
  exact (proj1 (proj1 (momentum_only_decays 2 demoWindow
                         (onWheel 100 demoState) Hd))).
Defined.

(** ** Smoothing never overshoots *)

Lemma tick_gap (w : Window) (s : State) :
  smoothPos (fst (tick w s)) - position (fst (tick w s)) ==
  (1 - lerpSpeed) * (smoothPos s - position (fst (tick w s))).
Proof. rewrite tick_smoothPos, tick_position. ring. Qed.

Lemma frames_idle_toward (n : nat) (w : Window) :
  forall s, velocity s == 0 ->
  velocity (frames n w s) == 0 /\
  position (frames n w s) == position s /\
  (smoothPos s <= position s ->
     smoothPos s <= smoothPos (frames n w s) /\
     smoothPos (frames n w s) <= position s) /\
  (position s <= smoothPos s ->
     position s <= smoothPos (frames n w s) /\
     smoothPos (frames n w s) <= smoothPos s).
Proof.
  induction n as [| n IH]; intros s Hv; cbn [frames].
  - split; [exact Hv | split; [reflexivity |]].
    split; intro H; split; lra.
  - destruct (tick_idle w s Hv) as [Hp [Hv1 _]].
    destruct (IH _ Hv1) as [A [B [Cup Cdown]]].
    pose proof (tick_gap w s) as Hg. unfold lerpSpeed in Hg.
    split; [exact A | split; [lra |]].
    split; intro H.
    + assert (H1 : smoothPos (fst (tick w s)) <= position (fst (tick w s)))
        by lra.
      destruct (Cup H1) as [C1 C2]. split; lra.
    + assert (H1 : position (fst (tick w s)) <= smoothPos (fst (tick w s)))
        by lra.
      destruct (Cdown H1) as [C1 C2]. split; lra.
Qed.

(** X10. The smoothing step never overshoots: after every tick the new
    smoothPos lies between the old smoothPos and the position of that tick;
    with velocity 0 and no input, smoothPos moves monotonically toward the
    (constant) position over successive ticks and never passes it. *)
Theorem smoothing_never_overshoots (n : nat) (w : Window) (s : State) :
  (smoothPos s <= position (fst (tick w s)) ->
     smoothPos s <= smoothPos (fst (tick w s)) /\
     smoothPos (fst (tick w s)) <= position (fst (tick w s))) /\
  (position (fst (tick w s)) <= smoothPos s ->
     position (fst (tick w s)) <= smoothPos (fst (tick w s)) /\
     smoothPos (fst (tick w s)) <= smoothPos s) /\
  (velocity s == 0 -> smoothPos s <= position s ->
     smoothPos s <= smoothPos (frames n w s) /\
     smoothPos (frames n w s) <= smoothPos (frames (S n) w s) /\
     smoothPos (frames (S n) w s) <= position s) /\
  (velocity s == 0 -> position s <= smoothPos s ->
     position s <= smoothPos (frames (S n) w s) /\
     smoothPos (frames (S n) w s) <= smoothPos (frames n w s) /\
     smoothPos (frames n w s) <= smoothPos s).
Proof.
  pose proof (tick_gap w s) as Hg. unfold lerpSpeed in Hg.
  split; [intro H; split; lra |].
  split; [intro H; split; lra |].
  split; intros Hv H.
  - destruct (frames_idle_toward n w s Hv) as [Vn [Pn [Up _]]].
    destruct (Up H) as [U1 U2].
    destruct (tick_idle w _ Vn) as [Pn1 _].
    pose proof (tick_gap w (frames n w s)) as Hgn. unfold lerpSpeed in Hgn.
    rewrite <- frames_succ in Pn1, Hgn.
    split; [exact U1 | split; lra].
  - destruct (frames_idle_toward n w s Hv) as [Vn [Pn [_ Down]]].
    destruct (Down H) as [D1 D2].
    destruct (tick_idle w _ Vn) as [Pn1 _].
    pose proof (tick_gap w (frames n w s)) as Hgn. unfold lerpSpeed in Hgn.
    rewrite <- frames_succ in Pn1, Hgn.
    split; [lra | split; [lra | exact D2]].
Qed.

(** ** What a card looks like at a given distance *)

Lemma clamp_unit_cases (v : Q) :
  (v <= 0 -> gsap.clamp 0 1 v == 0) /\
  (1 <= v -> gsap.clamp 0 1 v == 1) /\
  (0 <= v -> v <= 1 -> gsap.clamp 0 1 v = v).
Proof.
  unfold gsap.clamp, Num.gtb.
  destruct (Num.ltb v 0) eqn:E0; destruct (Num.ltb 1 v) eqn:E1;
    try apply ltb_lt in E0; try apply ltb_ge in E0;
    try apply ltb_lt in E1; try apply ltb_ge in E1;
    repeat split; intros; try reflexivity; lra.
Qed.

Lemma viewport_scale_positive (w : Window) : 900 <= Qmax (innerWidth w) 900.
Proof. apply Q.le_max_r. Qed.

Lemma easeScale_comp (t u : Q) : t == u -> easeScale t == easeScale u.
Proof.
  intro H. unfold easeScale, Num.ltb.
  rewrite (Qleb_comp 0.5 0.5 (Qeq_refl _) t u H).
  destruct (negb (Qle_bool 0.5 u)); rewrite H; reflexivity.
Qed.

Lemma easedDistance_at_center (s : State) (w : Window) (i : nat) :
  cardCenterX s i == visibleCenterX s -> easedDistance s w i == 0.
Proof.
  intro Hc. unfold easedDistance.
  assert (Hd : Qabs (cardCenterX s i - visibleCenterX s) == 0).
  { assert (Hz : cardCenterX s i - visibleCenterX s == 0) by lra.
    rewrite (Qabs_wd _ _ Hz). reflexivity. }
  assert (Hv : Qabs (cardCenterX s i - visibleCenterX s)
               / Qmax (innerWidth w) 900 == 0).
  { rewrite Hd. unfold Qdiv. ring. }
  destruct (clamp_unit_cases
              (Qabs (cardCenterX s i - visibleCenterX s)
               / Qmax (innerWidth w) 900)) as [C0 _].
  rewrite (easeScale_comp _ 0); [reflexivity |].
  apply C0. lra.
Qed.

Lemma easedDistance_far (s : State) (w : Window) (i : nat) :
  Qmax (innerWidth w) 900 <= Qabs (cardCenterX s i - visibleCenterX s) ->
  easedDistance s w i == 1.
Proof.
  intro Hfar. unfold easedDistance.
  pose proof (viewport_scale_positive w) as HM.
  assert (Hv : 1 <= Qabs (cardCenterX s i - visibleCenterX s)
                    / Qmax (innerWidth w) 900).
  { apply Qle_shift_div_l; lra. }
  destruct (clamp_unit_cases
              (Qabs (cardCenterX s i - visibleCenterX s)
               / Qmax (innerWidth w) 900)) as [_ [C1 _]].
  rewrite (easeScale_comp _ 1); [reflexivity |].
  apply C1. exact Hv.
Qed.

(** X13. The two ends of the visual range are reached: a card whose center
    is exactly at the viewport center is drawn at full size and flat (scale
    1, both rotations 0, depth 120, no vertical offset, no blur, brightness
    1); a card at least max(innerWidth, 900) away from the center is drawn
    with scale 0.65, depth -60, vertical offset 40, blur 6, brightness
    0.6. *)
Theorem card_at_center_and_far_away (s : State) (w : Window) (i : nat) :
  (cardCenterX s i == visibleCenterX s ->
     card_scaleX (fst (renderCard s w i)) == 1 /\
     card_scaleY (fst (renderCard s w i)) == 1 /\
     card_rotationY (fst (renderCard s w i)) == 0 /\
     card_rotationX (fst (renderCard s w i)) == 0 /\
     card_z (fst (renderCard s w i)) == 120 /\
     card_y (fst (renderCard s w i)) == 0 /\
     card_blur (fst (renderCard s w i)) == 0 /\
     card_brightness (fst (renderCard s w i)) == 1) /\
  (Qmax (innerWidth w) 900 <= Qabs (cardCenterX s i - visibleCenterX s) ->
     card_scaleX (fst (renderCard s w i)) == 0.65 /\
     card_scaleY (fst (renderCard s w i)) == 0.65 /\
     card_z (fst (renderCard s w i)) == -60 /\
     card_y (fst (renderCard s w i)) == 40 /\
     card_blur (fst (renderCard s w i)) == 6 /\
     card_brightness (fst (renderCard s w i)) == 0.6).
Proof.
  cbn [fst renderCard card_scaleX card_scaleY card_rotationY card_rotationX
       card_z card_y card_blur card_brightness].
  rewrite !mapRange_unit.
  split; intro H.
  - pose proof (easedDistance_at_center s w i H) as Ht.
    set (t := easedDistance s w i) in *. clearbody t.
    destruct (Num.ltb (cardCenterX s i) (visibleCenterX s));
      rewrite Ht; repeat split; ring.
  - pose proof (easedDistance_far s w i H) as Ht.
    set (t := easedDistance s w i) in *. clearbody t.
    rewrite Ht; repeat split; ring.
Qed.

Lemma renderCard_card (s : State) (w : Window) (i : nat) :
  card_rotationY (fst (renderCard s w i)) =
    gsap.mapRange 0 1 0 20 (easedDistance s w i) *
    (if Num.ltb (cardCenterX s i) (visibleCenterX s) then 1 else -1) /\
  card_rotationX (fst (renderCard s w i)) =
    gsap.mapRange 0 1 0 6 (easedDistance s w i) *
    (if Num.ltb (cardCenterX s i) (visibleCenterX s) then -1 else 1) /\
  card_z (fst (renderCard s w i)) =
    gsap.mapRange 0 1 120 (-60) (easedDistance s w i) /\
  card_y (fst (renderCard s w i)) =
    gsap.mapRange 0 1 0 40 (easedDistance s w i).
Proof. split; [| split; [| split]]; reflexivity. Qed.

Lemma renderCard_tilt (s : State) (w : Window) (i : nat) :
  card_rotationY (fst (renderCard s w i)) ==
    20 * easedDistance s w i *
    (if Num.ltb (cardCenterX s i) (visibleCenterX s) then 1 else -1) /\
  card_rotationX (fst (renderCard s w i)) ==
    6 * easedDistance s w i *
    (if Num.ltb (cardCenterX s i) (visibleCenterX s) then -1 else 1) /\
  card_z (fst (renderCard s w i)) == 120 - 180 * easedDistance s w i /\
  card_y (fst (renderCard s w i)) == 40 * easedDistance s w i.
Proof.
  destruct (renderCard_card s w i) as [EY [EX [EZ EO]]].
  rewrite EY, EX, EZ, EO. clear EY EX EZ EO.
  generalize (easedDistance s w i).
  generalize (Num.ltb (cardCenterX s i) (visibleCenterX s)).
  intros b t. rewrite !mapRange_unit.
  destruct b; (split; [ring | split; [ring | split; ring]]).
Qed.

(** X14. Cards tilt toward the center: on a track of positive width, a
    card left of the viewport center gets a Y rotation in [0, 20] and an X
    rotation in [-6, 0], a card at or right of it a Y rotation in [-20, 0]
    and an X rotation in [0, 6]; in both cases the depth lies in [-60, 120]
    and the vertical offset in [0, 40]. *)
Theorem card_tilt_faces_center (s : State) (w : Window) (i : nat) :
  0 < totalWidth s ->
  (cardCenterX s i < visibleCenterX s ->
     (0 <= card_rotationY (fst (renderCard s w i)) /\
      card_rotationY (fst (renderCard s w i)) <= 20) /\
     (-6 <= card_rotationX (fst (renderCard s w i)) /\
      card_rotationX (fst (renderCard s w i)) <= 0)) /\
  (visibleCenterX s <= cardCenterX s i ->
     (-20 <= card_rotationY (fst (renderCard s w i)) /\
      card_rotationY (fst (renderCard s w i)) <= 0) /\
     (0 <= card_rotationX (fst (renderCard s w i)) /\
      card_rotationX (fst (renderCard s w i)) <= 6)) /\
  (-60 <= card_z (fst (renderCard s w i)) /\
   card_z (fst (renderCard s w i)) <= 120) /\
  (0 <= card_y (fst (renderCard s w i)) /\
   card_y (fst (renderCard s w i)) <= 40).
Proof.
  intros _.
  destruct (easedDistance_unit s w i) as [H0 H1].
  destruct (renderCard_tilt s w i) as [EY [EX [EZ EO]]].
  revert H0 H1 EY EX EZ EO.
  generalize (card_rotationY (fst (renderCard s w i))).
  generalize (card_rotationX (fst (renderCard s w i))).
  generalize (card_z (fst (renderCard s w i))).
  generalize (card_y (fst (renderCard s w i))).
  generalize (easedDistance s w i).
  intros t cy cz rx ry H0 H1 EY EX EZ EO.
  destruct (Num.ltb (cardCenterX s i) (visibleCenterX s)) eqn:E.
  - apply ltb_lt in E.
    split; [intros _; split; split; lra |].
    split; [intro H; exfalso; lra |].
    split; split; lra.
  - apply ltb_ge in E.
    split; [intro H; exfalso; lra |].
    split; [intros _; split; split; lra |].
    split; split; lra.
Qed.

Lemma card_tilt_faces_center_witness :
  0 < totalWidth demoState /\
  cardCenterX demoState 0 < visibleCenterX demoState /\
  0 <= card_rotationY (fst (renderCard demoState demoWindow 0)) /\
  card_rotationY (fst (renderCard demoState demoWindow 0)) <= 20.
Proof.
  assert (Hm : 0 < totalWidth demoState) by reflexivity.
  assert (Hl : cardCenterX demoState 0 < visibleCenterX demoState)
    by reflexivity.
  split; [exact Hm |]. split; [exact Hl |].
  exact (proj1 (proj1 (card_tilt_faces_center demoState demoWindow 0 Hm) Hl)).
Defined.

(** X16. Inside the window the parallax stays in range: for a positive
    window width and a positive track width, a card whose center is at most
    innerWidth/2 from the viewport center gets parallaxX in [-40, 40] and
    parallaxY in [-10, 10]; the two offsets are opposite in sign with
    parallaxX = -4 * parallaxY, and both are 0 for a centered card. *)
Theorem parallax_inside_window (s : State) (w : Window) (i : nat) :
  0 < innerWidth w ->
  0 < totalWidth s ->
  (Qabs (cardCenterX s i - visibleCenterX s) <= innerWidth w / 2 ->
     (-40 <= img_x (snd (renderCard s w i)) /\
      img_x (snd (renderCard s w i)) <= 40) /\
     (-10 <= img_y (snd (renderCard s w i)) /\
      img_y (snd (renderCard s w i)) <= 10)) /\
  img_x (snd (renderCard s w i)) == -4 * img_y (snd (renderCard s w i)) /\
  (cardCenterX s i == visibleCenterX s ->
     img_x (snd (renderCard s w i)) == 0 /\
     img_y (snd (renderCard s w i)) == 0).
Proof.
  intros Hw _.
  destruct (parallax_linear s w i Hw) as [Hx Hy].
  set (d := cardCenterX s i - visibleCenterX s) in *.
  set (px := img_x (snd (renderCard s w i))) in *.
  set (py := img_y (snd (renderCard s w i))) in *.
  assert (Hx' : px == -80 * (d / innerWidth w)) by (rewrite Hx; field; lra).
  assert (Hy' : py == 20 * (d / innerWidth w)) by (rewrite Hy; field; lra).
  assert (Hr : d / innerWidth w * innerWidth w == d) by (field; lra).
  assert (Hh : innerWidth w / 2 * 2 == innerWidth w) by field.
  set (r := d / innerWidth w) in *.
  split; [| split].
  - intro Hin. apply Qabs_Qle_condition in Hin. destruct Hin as [Hlo Hhi].
    clearbody r px py.
    assert (Hr1 : r <= 0.5).
    { destruct (Qlt_le_dec 0.5 r) as [Hn | Hn]; [| exact Hn].
      pose proof (Qmult_lt_compat_r _ _ _ Hw Hn). exfalso. lra. }
    assert (Hr2 : -0.5 <= r).
    { destruct (Qlt_le_dec r (-0.5)) as [Hn | Hn]; [| exact Hn].
      pose proof (Qmult_lt_compat_r _ _ _ Hw Hn). exfalso. lra. }
    repeat split; lra.
  - clearbody r px py. lra.
  - intro Hc.
    assert (Hd : d == 0) by (unfold d; lra).
    assert (Hr0 : r == 0) by (unfold r; rewrite Hd; unfold Qdiv; ring).
    clearbody r px py. split; lra.
Qed.

Lemma parallax_inside_window_witness :
  0 < innerWidth demoWindow /\
  0 < totalWidth demoState /\
  Qabs (cardCenterX demoState 2 - visibleCenterX demoState)
    <= innerWidth demoWindow / 2 /\
  -40 <= img_x (snd (renderCard demoState demoWindow 2)) /\
  img_x (snd (renderCard demoState demoWindow 2)) <= 40.
Proof.
  assert (Hw : 0 < innerWidth demoWindow) by reflexivity.
  assert (Hin : Qabs (cardCenterX demoState 2 - visibleCenterX demoState)
                <= innerWidth demoWindow / 2) by (vm_compute; discriminate).
  assert (Hm : 0 < totalWidth demoState) by reflexivity.
  split; [exact Hw |]. split; [exact Hm |]. split; [exact Hin |].
  exact (proj1 (proj1 (parallax_inside_window demoState demoWindow 2 Hw Hm)
                  Hin)).
Defined.

(** ** Geometry and the states the script reaches *)

Lemma onResize_twice (w1 w2 : Window) (s : State) :
  onResize w2 (onResize w1 s) = onResize w2 s.
Proof.
  destruct s as [cs iw tw vc p v sp ts d lx dt dx dc].
  destruct cs as [| c cs]; reflexivity.
Qed.

Lemma handle_keeps_geometry (e : Event) (s : State) :
  (forall w, e <> Resize w) ->
  itemW (handle e s) = itemW s /\
  totalWidth (handle e s) = totalWidth s /\
  visibleCenterX (handle e s) = visibleCenterX s.
Proof.
  intro He. destruct e; cbn [handle].
  - repeat split.
  - repeat split.
  - unfold onTouchMove. destruct (touchStartX s); repeat split.
  - repeat split.
  - repeat split.
  - unfold onMouseUp. destruct (isDragging s); [| repeat split].
    destruct (Num.gtb _ 0); repeat split.
  - unfold onMouseMove. destruct (negb (isDragging s)); repeat split.
  - exfalso. exact (He w eq_refl).
  - unfold tick, integrate. destruct (negb (isDragging s)); repeat split.
Qed.

(** X17. The geometry is whatever the last resize measured: a resize
    overwrites the result of an earlier one completely (two resizes in a row
    equal the second alone), and no other event - wheel, touch, mouse or frame
    tick - changes itemW, totalWidth or visibleCenterX. *)
Theorem geometry_set_by_last_resize
    (w1 w2 : Window) (e : Event) (s : State) :
  onResize w2 (onResize w1 s) = onResize w2 s /\
  ((forall w, e <> Resize w) ->
     itemW (handle e s) = itemW s /\
     totalWidth (handle e s) = totalWidth s /\
     visibleCenterX (handle e s) = visibleCenterX s).
Proof.
  split; [apply onResize_twice | apply handle_keeps_geometry].
Qed.

Lemma reachable_cards_cloned (s : State) :
  reachable s ->
  exists originals : list Card,
    originals <> [] /\ cards s = originals ++ originals ++ originals.
Proof.
  induction 1 as [originals w s Hinit | e s _ [o [Ho Hc]]].
  - exists originals. unfold init in Hinit.
    destruct (getItemWidth (ensureClones originals) w) as [iw |] eqn:G;
      [| discriminate].
    injection Hinit as <-. cbn [cards].
    split; [| apply ensureClones_three].
    intro Hnil. subst originals. discriminate G.
  - exists o. rewrite handle_cards. split; assumption.
Qed.

(** X18. In every state the script reaches - the start-up state and
    whatever any sequence of events and frame ticks makes of it - the track
    still holds the three copies of a non-empty list of originals built at
    start-up, and totalWidth is itemW times the number of cards. *)
Theorem reachable_state_invariants (s : State) :
  reachable s ->
  (exists originals : list Card,
     originals <> [] /\ cards s = originals ++ originals ++ originals) /\
  totalWidth s = itemW s * Num.of_nat (length (cards s)).
Proof.
  intro H. split; [apply reachable_cards_cloned; exact H |].
  apply reachable_geometry. exact H.
Qed.

Lemma reachable_state_invariants_witness :
  reachable demoDragging /\
  totalWidth demoDragging =
    itemW demoDragging * Num.of_nat (length (cards demoDragging)).
Proof.
  pose proof (proj1 demo_sessions_reachable) as H.
  split; [exact H |].
  exact (proj2 (reachable_state_invariants demoDragging H)).
Defined.

(** ** Gestures and momentum together *)

Lemma wheels_keep_session (ds : list Q) :
  forall s,
  isDragging (run (map Wheel ds) s) = isDragging s /\
  dragStartX (run (map Wheel ds) s) = dragStartX s /\
  dragStartTime (run (map Wheel ds) s) = dragStartTime s.
Proof.
  induction ds as [| d ds IH]; intro s.
  - cbn. auto.
  - change (run (map Wheel (d :: ds)) s)
      with (run (map Wheel ds) (onWheel d s)).
    destruct (IH (onWheel d s)) as [H1 [H2 H3]].
    rewrite H1, H2, H3. cbn. auto.
Qed.

Lemma wheels_keep_position (ds : list Q) :
  forall s, position (run (map Wheel ds) s) = position s.
Proof.
  induction ds as [| d ds IH]; intro s; [reflexivity |].
  change (run (map Wheel (d :: ds)) s)
    with (run (map Wheel ds) (onWheel d s)).
  rewrite IH. reflexivity.
Qed.

(** X19. Wheel input during a mouse drag is lost when the release takes
    measurable time: while the drag lasts the wheel events only change
    velocity (position stays put over any number of frame ticks), and the
    release then overwrites velocity with the exit velocity of the drag, the
    same value as if the wheel had not been touched. *)
Theorem wheel_during_drag_is_discarded
    (deltas : list Q) (clientX now : Q) (n : nat) (w : Window) (s : State) :
  isDragging s = true ->
  0 < (now - dragStartTime s) / 1000 ->
  position (frames n w (run (map Wheel deltas) s)) = position s /\
  velocity (onMouseUp clientX now (run (map Wheel deltas) s)) =
    velocity (onMouseUp clientX now s).
Proof.
  intros Hd Hdt.
  destruct (wheels_keep_session deltas s) as [H1 [H2 H3]].
  pose proof (wheels_keep_position deltas s) as Hp.
  split.
  - destruct (frames_dragging n w (run (map Wheel deltas) s)) as [Hf _];
      [rewrite H1; exact Hd |].
    rewrite Hf. exact Hp.
  - apply gtb_pos in Hdt.
    unfold onMouseUp. rewrite H1, H2, H3, Hd, Hdt. reflexivity.
Qed.

Lemma wheel_during_drag_is_discarded_witness :
  isDragging demoDragging = true /\
  0 < (500 - dragStartTime demoDragging) / 1000 /\
  velocity (onMouseUp 200 500 (run (map Wheel [100; 100; 100]) demoDragging))
    = velocity (onMouseUp 200 500 demoDragging).
Proof.
  assert (Hd : isDragging demoDragging = true) by reflexivity.
  assert (Ht : 0 < (500 - dragStartTime demoDragging) / 1000) by reflexivity.
  split; [exact Hd |]. split; [exact Ht |].
  exact (proj2 (wheel_during_drag_is_discarded [100; 100; 100] 200 500 0
                  demoWindow demoDragging Hd Ht)).
Defined.

Lemma touchMoves_keep_momentum (xs : list Q) :
  forall s,
  isDragging (run (map TouchMove xs) s) = isDragging s /\
  velocity (run (map TouchMove xs) s) = velocity s.
Proof.
  induction xs as [| x xs IH]; intro s; [split; reflexivity |].
  change (run (map TouchMove (x :: xs)) s)
    with (run (map TouchMove xs) (onTouchMove x s)).
  destruct (IH (onTouchMove x s)) as [H1 H2]. rewrite H1, H2.
  unfold onTouchMove. destruct (touchStartX s); split; reflexivity.
Qed.

(** X20. A touch drag does not suspend momentum (only a mouse drag does):
    the touch handlers change neither the velocity nor the drag flag, so with
    no mouse drag active a frame tick that runs while the finger is down
    still adds the velocity to the position the finger has dragged to and
    still applies friction. *)
Theorem touch_drag_keeps_momentum
    (x0 : Q) (xs : list Q) (w : Window) (s : State) :
  isDragging s = false ->
  velocity (run (TouchStart x0 :: map TouchMove xs) s) = velocity s /\
  isDragging (run (TouchStart x0 :: map TouchMove xs) s) = false /\
  position (fst (tick w (run (TouchStart x0 :: map TouchMove xs) s))) =
    position (run (TouchStart x0 :: map TouchMove xs) s) + velocity s /\
  velocity (fst (tick w (run (TouchStart x0 :: map TouchMove xs) s))) =
    velocity s * friction.
Proof.
  intro Hd.
  change (run (TouchStart x0 :: map TouchMove xs) s)
    with (run (map TouchMove xs) (onTouchStart x0 s)).
  destruct (touchMoves_keep_momentum xs (onTouchStart x0 s)) as [Hf Hv].
  change (isDragging (onTouchStart x0 s)) with (isDragging s) in Hf.
  change (velocity (onTouchStart x0 s)) with (velocity s) in Hv.
  rewrite Hd in Hf.
  destruct (tick_free w _ Hf) as [Tp [Tv _]].
  rewrite Tp, Tv, Hv.
  split; [reflexivity | split; [exact Hf | split; reflexivity]].
Qed.

Lemma touch_drag_keeps_momentum_witness :
  isDragging (onWheel 100 demoState) = false /\
  velocity (fst (tick demoWindow
                   (run (TouchStart 0 :: map TouchMove [50; 100])
                        (onWheel 100 demoState)))) =
    velocity (onWheel 100 demoState) * friction.
Proof.
  assert (Hd : isDragging (onWheel 100 demoState) = false) by reflexivity.
  split; [exact Hd |].
  exact (proj2 (proj2 (proj2 (touch_drag_keeps_momentum 0 [50; 100] demoWindow
                                (onWheel 100 demoState) Hd)))).
Defined.
